(** * DataProcessor: hashing, error state and the asynchronous dispatch

    A shallow embedding of the parts of [src/main.cpp] (the [DataProcessor]
    facade and its [Impl]) that carry behaviour of their own:

    - [generateHash]: the EVP digest call sequence, the hexadecimal
      formatting loop and the calls on the logger;
    - [encryptData]: the EVP cipher call sequence and its output vector;
    - [compressFile]: the file streams and the two deflate loops;
    - construction ([initializeComponents]) and the logging methods;
    - [getLastError] / [hasErrors] / [clearErrors];
    - [decompressFile];
    - [processDataAsync] / [waitForCompletion]: a detached worker thread per
      task and a fixed 100 ms sleep, modelled as an interleaving transition
      system with a millisecond clock.

    OpenSSL is an external library: [generateHash] is parameterised by a
    record of the four EVP operations it calls, and a reference provider
    (an executable SHA-256, FIPS 180-4) is defined for concrete runs.
    The cipher, zlib and the libraries used at start-up are parameters in
    the same way, with small stand-ins for concrete runs.

    The member [logger_] is a pointer that is null when the logger could
    not be created.  [generateHash], [encryptData] and the worker body call
    through it without a check; such a call on a null pointer is undefined
    behaviour and is represented by [None]. *)

From Stdlib Require Import ZArith Lia List String Ascii Bool.
From stdpp Require Import base list gmap strings.
Import ListNotations.

Local Open Scope Z_scope.

(** ** SHA-256 (FIPS 180-4), the digest the EVP calls are asked for *)

Module SHA256.

Definition wmod : Z := 2 ^ 32.

Definition add32 (x y : Z) : Z := (x + y) mod wmod.

Definition rotr (n x : Z) : Z :=
  Z.lor (Z.shiftr x n) (Z.shiftl x (32 - n) mod wmod).

Definition not32 (x : Z) : Z := Z.lxor x (wmod - 1).

Definition Ch (x y z : Z) : Z :=
  Z.lxor (Z.land x y) (Z.land (not32 x) z).

Definition Maj (x y z : Z) : Z :=
  Z.lxor (Z.lxor (Z.land x y) (Z.land x z)) (Z.land y z).

Definition Sigma0 (x : Z) : Z :=
  Z.lxor (Z.lxor (rotr 2 x) (rotr 13 x)) (rotr 22 x).

Definition Sigma1 (x : Z) : Z :=
  Z.lxor (Z.lxor (rotr 6 x) (rotr 11 x)) (rotr 25 x).

Definition sigma0 (x : Z) : Z :=
  Z.lxor (Z.lxor (rotr 7 x) (rotr 18 x)) (Z.shiftr x 3).

Definition sigma1 (x : Z) : Z :=
  Z.lxor (Z.lxor (rotr 17 x) (rotr 19 x)) (Z.shiftr x 10).

(** The first 64 primes. *)
Definition is_prime (n : nat) : bool :=
  forallb (fun d => negb (Nat.eqb (Nat.modulo n d) 0)) (seq 2 (n - 2)).

Definition primes : list Z :=
  map Z.of_nat (List.filter is_prime (seq 2 310)).

(** Integer [k]-th root by bisection on the bits below [2 ^ bit]. *)
Fixpoint iroot (k : Z) (n : Z) (bit : nat) (r : Z) : Z :=
  match bit with
  | O => r
  | S b =>
      let c := r + 2 ^ Z.of_nat b in
      iroot k n b (if c ^ k <=? n then c else r)
  end.

(** First 32 bits of the fractional part of a square / cube root. *)
Definition frac_sqrt (p : Z) : Z := iroot 2 (p * 2 ^ 64) 36 0 mod wmod.
Definition frac_cbrt (p : Z) : Z := iroot 3 (p * 2 ^ 96) 36 0 mod wmod.

(** Round constants: from the cube roots of the first 64 primes. *)
Definition K : list Z := Eval vm_compute in map frac_cbrt primes.

(** The eight working variables / chaining values. *)
Record regs := Regs { ra : Z; rb : Z; rc : Z; rd : Z;
                      re : Z; rf : Z; rg : Z; rh : Z }.

(** Initial hash value: from the square roots of the first 8 primes. *)
Definition H0 : regs :=
  Eval vm_compute in
    let h := map frac_sqrt (firstn 8 primes) in
    Regs (nth 0 h 0) (nth 1 h 0) (nth 2 h 0) (nth 3 h 0)
         (nth 4 h 0) (nth 5 h 0) (nth 6 h 0) (nth 7 h 0).

(** One round: consumes the oldest word of the 16-word schedule window
    and appends the next schedule word. *)
Definition round (st : regs * list Z) (k : Z) : regs * list Z :=
  let '(r, win) := st in
  let w := nth 0 win 0 in
  let t1 := add32 (add32 (add32 (add32 (rh r) (Sigma1 (re r)))
                                (Ch (re r) (rf r) (rg r))) k) w in
  let t2 := add32 (Sigma0 (ra r)) (Maj (ra r) (rb r) (rc r)) in
  let next := add32 (add32 (add32 (sigma1 (nth 14 win 0)) (nth 9 win 0))
                           (sigma0 (nth 1 win 0))) w in
  (Regs (add32 t1 t2) (ra r) (rb r) (rc r)
        (add32 (rd r) t1) (re r) (rf r) (rg r),
   tl win ++ [next]).

Definition add_regs (x y : regs) : regs :=
  Regs (add32 (ra x) (ra y)) (add32 (rb x) (rb y))
       (add32 (rc x) (rc y)) (add32 (rd x) (rd y))
       (add32 (re x) (re y)) (add32 (rf x) (rf y))
       (add32 (rg x) (rg y)) (add32 (rh x) (rh y)).

Definition compress (h : regs) (block : list Z) : regs :=
  add_regs h (fst (fold_left round K (h, block))).

(** Big-endian packing of bytes into 32-bit words. *)
Fixpoint words (n : nat) (bytes : list Z) : list Z :=
  match n with
  | O => []
  | S n' =>
      (nth 0 bytes 0 * 2 ^ 24 + nth 1 bytes 0 * 2 ^ 16
       + nth 2 bytes 0 * 2 ^ 8 + nth 3 bytes 0)
        :: words n' (skipn 4 bytes)
  end.

Fixpoint blocks (n : nat) (h : regs) (bytes : list Z) : regs :=
  match n with
  | O => h
  | S n' => blocks n' (compress h (words 16 (firstn 64 bytes)))
                   (skipn 64 bytes)
  end.

Definition be_bytes (n : nat) (x : Z) : list Z :=
  map (fun i => (x / 2 ^ (8 * Z.of_nat i)) mod 256) (rev (seq 0 n)).

(** Padding: 0x80, zeros up to 56 mod 64, then the bit length on 8 bytes. *)
Definition pad (msg : list Z) : list Z :=
  let len := Z.of_nat (List.length msg) in
  let zeros := Z.to_nat ((55 - len) mod 64) in
  msg ++ [128] ++ repeat 0 zeros ++ be_bytes 8 (8 * len).

Definition word_bytes (x : Z) : list Z := be_bytes 4 x.

Definition digest_bytes (msg : list Z) : list Z :=
  let p := pad msg in
  let r := blocks (List.length p / 64) H0 p in
  word_bytes (ra r) ++ word_bytes (rb r) ++ word_bytes (rc r)
  ++ word_bytes (rd r) ++ word_bytes (re r) ++ word_bytes (rf r)
  ++ word_bytes (rg r) ++ word_bytes (rh r).

Definition byte_val (c : ascii) : Z := Z.of_N (N_of_ascii c).

Definition digest (data : string) : list ascii :=
  map (fun b => ascii_of_N (Z.to_N b))
      (digest_bytes (map byte_val (list_ascii_of_string data))).

End SHA256.

Local Open Scope string_scope.
Local Open Scope list_scope.

(** ** Logging (spdlog)

    The lines a call writes, oldest first.  A spdlog logger writes a
    message when the level of the message is not below the level of the
    logger ([level_enum]: trace 0, debug 1, info 2, warn 3, err 4,
    critical 5, off 6). *)

Inductive level := Info | Error.

Definition log_line : Type := level * string.

Definition level_enum (l : level) : Z :=
  match l with Info => 2%Z | Error => 4%Z end.

Record logger := { log_level : Z }.

Definition should_log (lg : logger) (l : level) : bool :=
  (log_level lg <=? level_enum l)%Z.

(** [logger->info(..)] / [logger->error(..)]: the lines that come out. *)
Definition log_to (lg : logger) (line : log_line) : list log_line :=
  if should_log lg (fst line) then [line] else [].

(** The same call made through the member [logger_] without a check:
    [None] when the pointer is null. *)
Definition logger_call (lg : option logger) (line : log_line)
  : option (list log_line) :=
  match lg with
  | Some l => Some (log_to l line)
  | None => None
  end.

(** ** OpenSSL's EVP digest interface, as [generateHash] uses it

    [EVP_MD_CTX_new] may return a null pointer ([None]); the other three
    return an [int] status, 1 on success.  [EVP_DigestFinal_ex] writes the
    digest into the caller's buffer and sets [hashLen] to the number of
    bytes written: both are represented by the list of bytes written.
    [EVP_DigestInit_ex] is always called with [EVP_sha256()]. *)

Record OpenSSL := {
  EVP_MD_CTX : Type;
  EVP_MD_CTX_new : option EVP_MD_CTX;
  EVP_DigestInit_ex : EVP_MD_CTX -> Z * EVP_MD_CTX;
  EVP_DigestUpdate : EVP_MD_CTX -> string -> Z * EVP_MD_CTX;
  EVP_DigestFinal_ex : EVP_MD_CTX -> Z * list ascii
}.

(** What OpenSSL documents for [EVP_sha256()]: when the four calls all
    report success, the bytes written are the SHA-256 digest of the data
    that was fed. *)
Definition sha256_provider (ssl : OpenSSL) : Prop :=
  forall (data : string) c0 c1 c2 md,
    EVP_MD_CTX_new ssl = Some c0 ->
    EVP_DigestInit_ex ssl c0 = (1%Z, c1) ->
    EVP_DigestUpdate ssl c1 data = (1%Z, c2) ->
    EVP_DigestFinal_ex ssl c2 = (1%Z, md) ->
    md = SHA256.digest data.

(** A provider whose calls all succeed: the context holds the bytes fed. *)
Definition libcrypto : OpenSSL := {|
  EVP_MD_CTX := string;
  EVP_MD_CTX_new := Some "";
  EVP_DigestInit_ex := fun _ => (1%Z, "");
  EVP_DigestUpdate := fun c d => (1%Z, (c ++ d)%string);
  EVP_DigestFinal_ex := fun c => (1%Z, SHA256.digest c)
|}.

(** A provider that fails: no memory for a digest context. *)
Definition libcrypto_no_memory : OpenSSL := {|
  EVP_MD_CTX := string;
  EVP_MD_CTX_new := None;
  EVP_DigestInit_ex := fun _ => (1%Z, "");
  EVP_DigestUpdate := fun c d => (1%Z, (c ++ d)%string);
  EVP_DigestFinal_ex := fun c => (1%Z, SHA256.digest c)
|}.

(** ** Hexadecimal formatting: the loop of [generateHash]

    [ss << std::hex << std::setw(2) << std::setfill('0')
        << static_cast<int>(hash[i])] *)

Definition hex_digit (d : Z) : ascii :=
  nth (Z.to_nat d) (list_ascii_of_string "0123456789abcdef") "0"%char.

(** [std::hex] output of an [int] converted from an [unsigned char]
    (0..255): one or two lowercase digits, no prefix. *)
Definition put_hex (v : Z) : list ascii :=
  if (v <? 16)%Z then [hex_digit v]
  else [hex_digit (v / 16); hex_digit (v mod 16)].

(** [std::setw(w)] with [std::setfill(fill)]: left padding up to [w]. *)
Definition setw_fill (w : nat) (fill : ascii) (field : list ascii) : list ascii :=
  repeat fill (w - List.length field) ++ field.

Definition hex_byte (c : ascii) : list ascii :=
  setw_fill 2 "0"%char (put_hex (SHA256.byte_val c)).

(** The stream contents after the loop over [hash[0..hashLen)]. *)
Fixpoint hex_stream (hash : list ascii) : list ascii :=
  match hash with
  | [] => []
  | c :: rest => hex_byte c ++ hex_stream rest
  end.

(** ** DataProcessor::Impl::generateHash

    [lg] is the member [logger_].  Returns the lines logged and the
    returned string; [None] when the call on the logger is made on a null
    pointer.  Every path ends with one call on the logger, after the
    OpenSSL calls of that path. *)
Definition generateHash (ssl : OpenSSL) (lg : option logger) (data : string)
  : option (list log_line * string) :=
  match EVP_MD_CTX_new ssl with
  | None =>
      match logger_call lg (Error, "Failed to create hash context") with
      | Some lines => Some (lines, "")
      | None => None
      end
  | Some ctx =>
      let '(r, ctx) := EVP_DigestInit_ex ssl ctx in
      if negb (r =? 1)%Z then
        match logger_call lg (Error, "Failed to initialize hash") with
        | Some lines => Some (lines, "")
        | None => None
        end
      else
        let '(r, ctx) := EVP_DigestUpdate ssl ctx data in
        if negb (r =? 1)%Z then
          match logger_call lg (Error, "Failed to update hash") with
          | Some lines => Some (lines, "")
          | None => None
          end
        else
          let '(r, hash) := EVP_DigestFinal_ex ssl ctx in
          if negb (r =? 1)%Z then
            match logger_call lg (Error, "Failed to finalize hash") with
            | Some lines => Some (lines, "")
            | None => None
            end
          else
            let ss := hex_stream hash in
            match logger_call lg (Info, "Hash generated successfully") with
            | Some lines => Some (lines, string_of_list_ascii ss)
            | None => None
            end
  end.

(** The outcome of the four OpenSSL calls on [data], as [generateHash]
    makes them: all four succeed and [md] is what the last one wrote, *)
Definition evp_digest_ok (ssl : OpenSSL) (data : string) (md : list ascii)
  : Prop :=
  exists c0 c1 c2,
    EVP_MD_CTX_new ssl = Some c0
    /\ EVP_DigestInit_ex ssl c0 = (1%Z, c1)
    /\ EVP_DigestUpdate ssl c1 data = (1%Z, c2)
    /\ EVP_DigestFinal_ex ssl c2 = (1%Z, md).

(** or one of them fails after the ones before it have succeeded; the
    string is the message [generateHash] has for that call. *)
Inductive evp_failure (ssl : OpenSSL) (data : string) : string -> Prop :=
| no_context :
    EVP_MD_CTX_new ssl = None ->
    evp_failure ssl data "Failed to create hash context"
| init_failed c0 r c1 :
    EVP_MD_CTX_new ssl = Some c0 ->
    EVP_DigestInit_ex ssl c0 = (r, c1) -> r <> 1%Z ->
    evp_failure ssl data "Failed to initialize hash"
| update_failed c0 c1 r c2 :
    EVP_MD_CTX_new ssl = Some c0 ->
    EVP_DigestInit_ex ssl c0 = (1%Z, c1) ->
    EVP_DigestUpdate ssl c1 data = (r, c2) -> r <> 1%Z ->
    evp_failure ssl data "Failed to update hash"
| final_failed c0 c1 c2 r md :
    EVP_MD_CTX_new ssl = Some c0 ->
    EVP_DigestInit_ex ssl c0 = (1%Z, c1) ->
    EVP_DigestUpdate ssl c1 data = (1%Z, c2) ->
    EVP_DigestFinal_ex ssl c2 = (r, md) -> r <> 1%Z ->
    evp_failure ssl data "Failed to finalize hash".

(** The string [generateHash] returns on an object that has its logger;
    the level of the logger has no part in it. *)
Definition hash_of (ssl : OpenSSL) (d : string) : string :=
  match generateHash ssl (Some {| log_level := level_enum Info |}) d with
  | Some (_, result) => result
  | None => ""
  end.

(** The lowercase hexadecimal text of the SHA-256 digest. *)
Definition sha256_hex (d : string) : string :=
  string_of_list_ascii (hex_stream (SHA256.digest d)).

Definition lower_hex (c : ascii) : bool :=
  let n := nat_of_ascii c in
  ((48 <=? n)%nat && (n <=? 57)%nat) || ((97 <=? n)%nat && (n <=? 102)%nat).

(** ** DataProcessor::Impl::encryptData

    OpenSSL's cipher interface as [encryptData] uses it, always with
    [EVP_aes_256_cbc()], no engine and a null IV.  [EVP_EncryptUpdate] is
    given the input pointer and the input length [inl], an [int];
    it and [EVP_EncryptFinal_ex] return their status and the bytes they
    write at the output pointer; [len] and [finalLen] are the numbers of
    bytes written. *)

Record Cipher := {
  EVP_CIPHER_CTX : Type;
  EVP_CIPHER_CTX_new : option EVP_CIPHER_CTX;
  EVP_EncryptInit_ex : EVP_CIPHER_CTX -> string -> Z * EVP_CIPHER_CTX;
  EVP_EncryptUpdate : EVP_CIPHER_CTX -> string -> Z
                      -> Z * EVP_CIPHER_CTX * list ascii;
  EVP_EncryptFinal_ex : EVP_CIPHER_CTX -> Z * list ascii
}.

Definition EVP_MAX_BLOCK_LENGTH : nat := 32.

(** The key length of [EVP_aes_256_cbc()]. *)
Definition AES_256_KEY_LENGTH : nat := 32.

(** The AES block size, for the contract of the cipher. *)
Definition AES_BLOCK : Z := 16.

(** [data.size()] is a [size_t] and the parameter [inl] an [int]: the
    argument is converted, modulo 2^32 into the range of a 32-bit [int]. *)
Definition to_int (n : Z) : Z := ((n + 2 ^ 31) mod 2 ^ 32 - 2 ^ 31)%Z.

(** [EVP_EncryptInit_ex] reads a whole key at [key.c_str()], which
    addresses the [key.size()] characters and the terminator.  The output
    vector has [data.size() + EVP_MAX_BLOCK_LENGTH] bytes;
    [EVP_EncryptUpdate] writes at its start and [EVP_EncryptFinal_ex] at
    offset [len].  The result is [None] when the key is read past its end,
    when a write would go past the end of the vector (the code has no
    check of either) or when the logger is called through a null
    [logger_]: the behaviour is undefined.  The status of
    [EVP_EncryptFinal_ex] is not looked at. *)
Definition encryptData (c : Cipher) (lg : option logger) (data key : string)
  : option (list log_line * string) :=
  match EVP_CIPHER_CTX_new c with
  | None =>
      match logger_call lg (Error, "Failed to create cipher context") with
      | Some lines => Some (lines, "")
      | None => None
      end
  | Some ctx =>
      if (String.length key + 1 <? AES_256_KEY_LENGTH)%nat then None
      else
      let '(r, ctx) := EVP_EncryptInit_ex c ctx key in
      if negb (r =? 1)%Z then
        match logger_call lg (Error, "Failed to initialize encryption") with
        | Some lines => Some (lines, "")
        | None => None
        end
      else
        let size := (String.length data + EVP_MAX_BLOCK_LENGTH)%nat in
        let inl := to_int (Z.of_nat (String.length data)) in
        let '(r, ctx, out1) := EVP_EncryptUpdate c ctx data inl in
        if (size <? List.length out1)%nat then None
        else if negb (r =? 1)%Z then
          match logger_call lg (Error, "Failed to encrypt data") with
          | Some lines => Some (lines, "")
          | None => None
          end
        else
          let '(_, out2) := EVP_EncryptFinal_ex c ctx in
          if (size <? List.length out1 + List.length out2)%nat then None
          else
            match logger_call lg (Info, "Data encrypted successfully") with
            | Some lines => Some (lines, string_of_list_ascii (out1 ++ out2))
            | None => None
            end
  end.

(** What OpenSSL documents for a fresh CBC context with padding, when
    [inl] is not negative and the input holds at least [inl] bytes: an
    update writes at most [inl + block_size - 1] bytes; one that succeeds
    writes the whole blocks of the [inl] bytes it was given, and the final
    call then writes one more block. *)
Definition cbc_padding (c : Cipher) : Prop :=
  forall (data key : string) (inl : Z) c0 r1 c1 r2 c2 out1 r3 out2,
    (0 <= inl <= Z.of_nat (String.length data))%Z ->
    EVP_CIPHER_CTX_new c = Some c0 ->
    EVP_EncryptInit_ex c c0 key = (r1, c1) ->
    EVP_EncryptUpdate c c1 data inl = (r2, c2, out1) ->
    EVP_EncryptFinal_ex c c2 = (r3, out2) ->
    (Z.of_nat (List.length out1) <= inl + AES_BLOCK - 1)%Z
    /\ (r2 = 1%Z ->
        Z.of_nat (List.length out1) = (AES_BLOCK * (inl / AES_BLOCK))%Z
        /\ Z.of_nat (List.length out2) = AES_BLOCK).

(** A stand-in with the block structure of CBC and no encryption at all:
    the context holds the bytes of the incomplete block. *)
Definition block_padder : Cipher := {|
  EVP_CIPHER_CTX := list ascii;
  EVP_CIPHER_CTX_new := Some [];
  EVP_EncryptInit_ex := fun _ _ => (1%Z, []);
  EVP_EncryptUpdate := fun _ d inl =>
    let bytes := firstn (Z.to_nat inl) (list_ascii_of_string d) in
    let whole := (16 * (List.length bytes / 16))%nat in
    (1%Z, skipn whole bytes, firstn whole bytes);
  EVP_EncryptFinal_ex := fun c =>
    (1%Z, c ++ repeat (ascii_of_nat (16 - List.length c))
                      (16 - List.length c))
|}.

(** ** DataProcessor::Impl::compressFile

    The file system maps the paths of regular files to their contents.
    Opening the input for reading succeeds when the file exists; whether
    the output can be opened for writing is up to the environment
    ([writable]).  Opening the output creates the file or truncates it.
    Each file has one name here, and every file that opens can be read;
    the lines are those that reach a logger at level info. *)

Inductive flush := Z_NO_FLUSH | Z_FINISH.

(** zlib's deflate interface.  [deflateInit] gives a stream ([Z_OK]) or
    fails.  [deflate] is given the stream, the bytes at [next_in]
    ([avail_in] is their number) and the flush mode, with [avail_out] set
    to [CHUNK]; it returns the stream, the bytes it has not consumed and
    the bytes it has written at [next_out] (at most [CHUNK]). *)
Record Zlib := {
  z_stream : Type;
  deflateInit : option z_stream;
  deflate : z_stream -> list ascii -> flush
            -> z_stream * list ascii * list ascii
}.

Definition CHUNK : nat := Eval vm_compute in N.to_nat 16384.

(** The inner loop: call [deflate] and write what it produced until it
    leaves room in the output buffer.  [None]: not finished within
    [fuel] calls. *)
Fixpoint deflate_chunk (zl : Zlib) (fuel : nat) (strm : z_stream zl)
    (next_in : list ascii) (fl : flush) (written : list ascii)
  : option (z_stream zl * list ascii) :=
  match fuel with
  | O => None
  | S fuel' =>
      let '(strm', rest, out) := deflate zl strm next_in fl in
      let written' := written ++ out in
      if Nat.eqb (CHUNK - List.length out) 0
      then deflate_chunk zl fuel' strm' rest fl written'
      else Some (strm', written')
  end.

(** The outer loop over the unread part of the input: read up to [CHUNK]
    bytes; the read sets [eof] when it runs into the end of the file. *)
Fixpoint deflate_file (zl : Zlib) (inner fuel : nat) (strm : z_stream zl)
    (unread : list ascii) (written : list ascii)
  : option (z_stream zl * list ascii) :=
  match fuel with
  | O => None
  | S fuel' =>
      let chunk := firstn CHUNK unread in
      let eof := (List.length unread <? CHUNK)%nat in
      match deflate_chunk zl inner strm chunk
              (if eof then Z_FINISH else Z_NO_FLUSH) written with
      | None => None
      | Some (strm', written') =>
          if eof then Some (strm', written')
          else deflate_file zl inner fuel' strm' (skipn CHUNK unread) written'
      end
  end.

(** Returns the result, the file system afterwards and the lines logged;
    [None] when the loops have not finished within [fuel] rounds. *)
Definition compressFile (zl : Zlib) (writable : string -> bool) (fuel : nat)
    (fs : gmap string string) (inputPath outputPath : string)
  : option (bool * gmap string string * list log_line) :=
  let input := fs !! inputPath in
  let output := writable outputPath in
  let fs1 := if output then <[outputPath := ""]> fs else fs in
  match input, output with
  | Some _, true =>
      match deflateInit zl with
      | None =>
          Some (false, fs1, [(Error, "Failed to initialize zlib compression")])
      | Some strm =>
          let content := default "" (fs1 !! inputPath) in
          match deflate_file zl fuel fuel strm
                  (list_ascii_of_string content) [] with
          | None => None
          | Some (_, written) =>
              Some (true,
                    <[outputPath := string_of_list_ascii written]> fs1,
                    [(Info, ("Successfully compressed file: " ++ inputPath
                             ++ " -> " ++ outputPath)%string)])
          end
      end
  | _, _ => Some (false, fs1, [(Error, "Failed to open files for compression")])
  end.

(** A stand-in for zlib that stores instead of compressing: the stream is
    what it has emitted and what is still pending. *)
Definition store_only : Zlib := {|
  z_stream := list ascii * list ascii;
  deflateInit := Some ([], []);
  deflate := fun strm next_in _ =>
    let pending := snd strm ++ next_in in
    ((fst strm ++ firstn CHUNK pending, skipn CHUNK pending),
     [], firstn CHUNK pending)
|}.

(** ** Error state of DataProcessor::Impl *)

Record Impl := {
  processedItems_ : Z;
  errorCount_ : Z;
  lastError_ : string
}.

(** A member function: its return value and the object afterwards. *)
Definition Method (A : Type) : Type := Impl -> A * Impl.

(** A [const] member function reads the object and leaves it as it is. *)
Definition const_method {A : Type} (f : Impl -> A) : Method A :=
  fun p => (f p, p).

Definition empty (s : string) : bool :=
  match s with
  | EmptyString => true
  | String _ _ => false
  end.

Definition getLastError : Method string :=
  const_method lastError_.

Definition hasErrors : Method bool :=
  const_method (fun p => negb (empty (lastError_ p))).

Definition clearErrors : Method unit :=
  fun p => (tt, {| processedItems_ := processedItems_ p;
                   errorCount_ := errorCount_ p;
                   lastError_ := "" |}).

(** ** Construction and the logging methods *)

(** The object behind [pImpl]: the value fields and the handles, [None]
    for a null pointer. *)
Record Object := {
  fields : Impl;
  logger_ : option logger;
  db_ : option nat;
  curl_ : option nat;
  ft_library_ : option nat;
  ft_face_ : option nat;
  hb_font_ : option nat
}.

(** What [initializeComponents] finds: [spdlog::stdout_color_mt] returns a
    logger or throws [spdlog_ex] (the name is already registered), the
    other libraries return their handles and codes. *)
Record Startup := {
  stdout_color_mt : string -> string + logger;
  curl_easy_init : option nat;
  FT_Init_FreeType : Z * option nat;
  hb_ft_font_create_referenced : option nat -> option nat
}.

Definition set_lastError (p : Impl) (what : string) : Impl :=
  {| processedItems_ := processedItems_ p;
     errorCount_ := errorCount_ p;
     lastError_ := what |}.

(** Returns the result, the object afterwards and the lines written. *)
Definition initializeComponents (env : Startup) (o : Object)
  : bool * Object * list log_line :=
  match stdout_color_mt env "data_processor" with
  | inl what =>
      (false,
       {| fields := set_lastError (fields o) what; logger_ := logger_ o;
          db_ := db_ o; curl_ := curl_ o; ft_library_ := ft_library_ o;
          ft_face_ := ft_face_ o; hb_font_ := hb_font_ o |},
       [])
  | inr _ =>
      let lg := {| log_level := level_enum Info |} in
      let '(err, lib) := FT_Init_FreeType env in
      if negb (err =? 0)%Z then
        (false,
         {| fields := fields o; logger_ := Some lg; db_ := db_ o;
            curl_ := curl_easy_init env; ft_library_ := lib;
            ft_face_ := ft_face_ o; hb_font_ := hb_font_ o |},
         log_to lg (Error, "Failed to initialize FreeType"))
      else
        (true,
         {| fields := fields o; logger_ := Some lg; db_ := db_ o;
            curl_ := curl_easy_init env; ft_library_ := lib;
            ft_face_ := ft_face_ o;
            hb_font_ := hb_ft_font_create_referenced env (ft_face_ o) |},
         log_to lg (Info, "All components initialized successfully"))
  end.

(** [Impl::Impl()]: null handles, default fields, then
    [initializeComponents()], whose result is dropped. *)
Definition unset : Object :=
  {| fields := {| processedItems_ := 0; errorCount_ := 0; lastError_ := "" |};
     logger_ := None; db_ := None; curl_ := None; ft_library_ := None;
     ft_face_ := None; hb_font_ := None |}.

Definition Impl_new (env : Startup) : Object * list log_line :=
  let '(_, o, lines) := initializeComponents env unset in
  (o, lines).

Definition setLogLevel (lvl : Z) (o : Object) : Object :=
  match logger_ o with
  | Some _ =>
      {| fields := fields o; logger_ := Some {| log_level := lvl |};
         db_ := db_ o; curl_ := curl_ o; ft_library_ := ft_library_ o;
         ft_face_ := ft_face_ o; hb_font_ := hb_font_ o |}
  | None => o
  end.

Definition logOperation (operation details : string) (o : Object)
  : list log_line :=
  match logger_ o with
  | Some lg =>
      log_to lg (Info, ("Operation: " ++ operation ++ " - Details: "
                        ++ details)%string)
  | None => []
  end.

(** [DataProcessor::logError]. *)
Definition logError (error : string) (o : Object) : list log_line :=
  logOperation "ERROR" error o.

(** ** DataProcessor::decompressFile

    The file system is a finite map from paths to contents; the function
    returns its result and the file system afterwards. *)
Definition decompressFile (fs : gmap string string)
    (inputPath outputPath : string) : bool * gmap string string :=
  (true, fs).

(** ** processDataAsync / waitForCompletion

    [processDataAsync] starts a detached [std::thread] whose body is
[[
      logger_->info("Processing data asynchronously");
      std::string result = generateHash(data);
      callback(result);
]]
    and returns.  [waitForCompletion] is
    [std::this_thread::sleep_for(std::chrono::milliseconds(100))].

    The process is a transition system: each worker advances one statement
    at a time, in any interleaving, and a clock counts milliseconds.  How
    long a worker statement takes is not bounded by the code, so clock
    ticks and worker steps interleave freely.  The call of the callback is
    two steps, its entry and its end: the other threads run and the clock
    ticks while a callback is running, and a callback that blocks is a
    worker whose last step is not taken. *)

(** How a callback ends: it returns or it throws. *)
Inductive outcome := Returned | Thrown (what : string).

Definition Callback : Type := string -> outcome.

(** Program counter of a worker thread. *)
Inductive phase :=
| Spawned                       (* thread created, body not started *)
| Running                       (* first log line written *)
| Hashed (result : string)      (* generateHash has returned *)
| InCallback (result : string)  (* callback entered, not yet over *)
| Finished.                     (* callback has returned, thread is over *)

Record task := {
  data : string;
  callback : Callback;
  pc : phase
}.

Record process := {
  clock : nat;                       (* milliseconds elapsed *)
  threads : list task;               (* one detached thread per submission *)
  sleeper : option nat;              (* wake-up time of the thread inside
                                        waitForCompletion, if any *)
  invoked : list (nat * string);     (* callback invocations: task, argument *)
  logged : list log_line;
  the_logger : option logger;        (* the member logger_ *)
  alive : bool                       (* false once the process has been
                                        terminated *)
}.

(** A process whose [DataProcessor] has the logger [lg]. *)
Definition start_with (lg : option logger) : process :=
  {| clock := 0; threads := []; sleeper := None;
     invoked := []; logged := []; the_logger := lg; alive := true |}.

(** The usual case: the logger was created, at level info. *)
Definition start : process :=
  start_with (Some {| log_level := level_enum Info |}).

Definition sleep_ms : nat := 100.

Definition is_finished (t : task) : bool :=
  match pc t with Finished => true | _ => false end.

(** Tasks submitted but not yet completed. *)
Definition outstanding (s : process) : Z :=
  (Z.of_nat (List.length (threads s))
   - Z.of_nat (List.length (List.filter is_finished (threads s))))%Z.

Definition set_pc (t : task) (p : phase) : task :=
  {| data := data t; callback := callback t; pc := p |}.

(** [processDataAsync(data, callback)]: create the thread, detach, return.
    Any thread may call it at any time.  The constructor of [std::thread]
    throws [std::system_error] when the thread cannot be started
    ([started = false]): the exception goes to the caller, there is no
    thread and nothing else has happened. *)
Definition processDataAsync (started : bool) (d : string) (cb : Callback)
    (s : process) : option process :=
  if alive s then
    if started then
      Some {| clock := clock s;
              threads := threads s
                         ++ [{| data := d; callback := cb; pc := Spawned |}];
              sleeper := sleeper s; invoked := invoked s;
              logged := logged s; the_logger := the_logger s;
              alive := true |}
    else Some s
  else None.

(** [setLogLevel(level)], called by any thread while the workers run. *)
Definition set_level (lvl : Z) (s : process) : option process :=
  if alive s then
    Some {| clock := clock s; threads := threads s; sleeper := sleeper s;
            invoked := invoked s; logged := logged s;
            the_logger := match the_logger s with
                          | Some _ => Some {| log_level := lvl |}
                          | None => None
                          end;
            alive := true |}
  else None.

(** [waitForCompletion()], entry: the caller starts sleeping for 100 ms.
    One thread at a time is followed through [waitForCompletion]. *)
Definition waitForCompletion_call (s : process) : option process :=
  match alive s, sleeper s with
  | true, None =>
      Some {| clock := clock s; threads := threads s;
              sleeper := Some (clock s + sleep_ms)%nat;
              invoked := invoked s; logged := logged s;
              the_logger := the_logger s; alive := true |}
  | _, _ => None
  end.

(** [waitForCompletion()], exit: [sleep_for] is over once the duration
    has elapsed. *)
Definition waitForCompletion_return (s : process) : option process :=
  match alive s, sleeper s with
  | true, Some wake =>
      if (wake <=? clock s)%nat then
        Some {| clock := clock s; threads := threads s; sleeper := None;
                invoked := invoked s; logged := logged s;
                the_logger := the_logger s; alive := true |}
      else None
  | _, _ => None
  end.

Definition tick (s : process) : option process :=
  if alive s then
    Some {| clock := S (clock s); threads := threads s; sleeper := sleeper s;
            invoked := invoked s; logged := logged s;
            the_logger := the_logger s; alive := true |}
  else None.

(** The end of the process: [std::terminate], called when an exception
    leaves the body of a [std::thread], or the signal that follows a call
    through a null [logger_]. *)
Definition terminated (s : process) : process :=
  {| clock := clock s; threads := threads s; sleeper := sleeper s;
     invoked := invoked s; logged := logged s;
     the_logger := the_logger s; alive := false |}.

(** One step of the body of worker [i].  The body has no [try] block and
    no check of [logger_]. *)
Definition worker_step (ssl : OpenSSL) (i : nat) (s : process)
  : option process :=
  if alive s then
    match threads s !! i with
    | None => None
    | Some t =>
        match pc t with
        | Spawned =>
            match logger_call (the_logger s)
                    (Info, "Processing data asynchronously") with
            | None => Some (terminated s)
            | Some lines =>
                Some {| clock := clock s;
                        threads := <[i := set_pc t Running]> (threads s);
                        sleeper := sleeper s; invoked := invoked s;
                        logged := logged s ++ lines;
                        the_logger := the_logger s; alive := true |}
            end
        | Running =>
            match generateHash ssl (the_logger s) (data t) with
            | None => Some (terminated s)
            | Some (lines, result) =>
                Some {| clock := clock s;
                        threads := <[i := set_pc t (Hashed result)]> (threads s);
                        sleeper := sleeper s; invoked := invoked s;
                        logged := logged s ++ lines;
                        the_logger := the_logger s; alive := true |}
            end
        | Hashed result =>
            Some {| clock := clock s;
                    threads := <[i := set_pc t (InCallback result)]> (threads s);
                    sleeper := sleeper s;
                    invoked := invoked s ++ [(i, result)];
                    logged := logged s;
                    the_logger := the_logger s; alive := true |}
        | InCallback result =>
            match callback t result with
            | Returned =>
                Some {| clock := clock s;
                        threads := <[i := set_pc t Finished]> (threads s);
                        sleeper := sleeper s; invoked := invoked s;
                        logged := logged s;
                        the_logger := the_logger s; alive := true |}
            | Thrown _ => Some (terminated s)
            end
        | Finished => None
        end
    end
  else None.

Inductive event :=
| Submit (d : string) (cb : Callback)       (* processDataAsync *)
| SubmitFails (d : string) (cb : Callback)  (* the same, no thread started *)
| SetLevel (lvl : Z)
| WaitCall
| WaitReturn
| Work (i : nat)
| Tick.

Definition step (ssl : OpenSSL) (e : event) (s : process) : option process :=
  match e with
  | Submit d cb => processDataAsync true d cb s
  | SubmitFails d cb => processDataAsync false d cb s
  | SetLevel lvl => set_level lvl s
  | WaitCall => waitForCompletion_call s
  | WaitReturn => waitForCompletion_return s
  | Work i => worker_step ssl i s
  | Tick => tick s
  end.

Fixpoint run (ssl : OpenSSL) (evs : list event) (s : process)
  : option process :=
  match evs with
  | [] => Some s
  | e :: rest =>
      match step ssl e s with
      | Some s' => run ssl rest s'
      | None => None
      end
  end.

(** Steps a worker has left to take. *)
Definition steps_left (p : phase) : nat :=
  match p with
  | Spawned => 4
  | Running => 3
  | Hashed _ => 2
  | InCallback _ => 1
  | Finished => 0
  end.




(** The invocations of the callback of task [i] so far. *)
Definition invocations (i : nat) (s : process) : list (nat * string) :=
  List.filter (fun p => Nat.eqb (fst p) i) (invoked s).

(** Whether the callback of a worker at [p] has been entered. *)
Definition entered (p : phase) : bool :=
  match p with
  | InCallback _ | Finished => true
  | _ => false
  end.

(** What the callback log says about each worker, at every moment: nothing
    before the worker enters the callback, and from then on one
    invocation, with the return value of [generateHash] on the task's
    payload. *)
Definition delivery_inv (ssl : OpenSSL) (s : process) : Prop :=
  forall i : nat,
    match threads s !! i with
    | None => invocations i s = []
    | Some t =>
        match pc t with
        | Spawned | Running => invocations i s = []
        | Hashed r => r = hash_of ssl (data t) /\ invocations i s = []
        | InCallback r =>
            r = hash_of ssl (data t) /\ invocations i s = [(i, r)]
        | Finished => invocations i s = [(i, hash_of ssl (data t))]
        end
    end.

(** Reading hexadecimal text back into bytes, to say what the text of
    [generateHash] encodes. *)
Definition hex_value (c : ascii) : Z :=
  let n := Z.of_nat (nat_of_ascii c) in
  if ((48 <=? n) && (n <=? 57))%Z then (n - 48)%Z
  else if ((97 <=? n) && (n <=? 102))%Z then (n - 87)%Z
  else 0%Z.

Fixpoint unhex (text : list ascii) : list ascii :=
  match text with
  | hi :: lo :: rest =>
      ascii_of_N (Z.to_N (16 * hex_value hi + hex_value lo)) :: unhex rest
  | _ => []
  end.

(** ** Sample runs *)

(** A callback that returns and one that throws. *)
Definition ok_callback : Callback := fun _ => Returned.

(** Two submissions; the first worker has hashed, the second has not
    started, one millisecond has passed. *)
Definition partial_run : list event :=
  [Submit "abc" ok_callback; Work 0; Work 0;
   Submit "Async test data" ok_callback; Tick].

Definition partial_state : process :=
  Eval vm_compute in default start (run libcrypto partial_run start).

(** A task is submitted, the caller waits, 100 ms pass and no worker
    statement has been scheduled meanwhile. *)
Definition slow_run : list event :=
  [Submit "abc" ok_callback; WaitCall] ++ repeat Tick 100.

Definition slow_state : process :=
  Eval vm_compute in default start (run libcrypto slow_run start).





(** ** The contract, as stated

    Each of these is one sentence of the contract of the dispatcher,
    written over runs of the transition system, or of [generateHash];
    they are compared with the code below. *)

(** [waitForCompletion] returns only after every task submitted before
    the call has completed. *)
Definition wait_covers_submitted (ssl : OpenSSL) : Prop :=
  forall pre mid s0 s1 s2 s3,
    run ssl pre start = Some s0 ->
    waitForCompletion_call s0 = Some s1 ->
    run ssl mid s1 = Some s2 ->
    waitForCompletion_return s2 = Some s3 ->
    forall i t, threads s0 !! i = Some t ->
      threads s3 !! i = Some (set_pc t Finished).

(** [waitForCompletion] is released by the outstanding-task count
    reaching zero, not by the passing of time. *)
Definition wait_is_counter_driven (ssl : OpenSSL) : Prop :=
  forall evs s,
    run ssl evs start = Some s ->
    is_Some (sleeper s) ->
    (is_Some (waitForCompletion_return s) <-> outstanding s = 0%Z).




(** Whatever the outcome of the OpenSSL calls, the callback receives the
    SHA-256 text of the payload. *)
Definition hash_always_delivered : Prop :=
  forall (ssl : OpenSSL) (d : string) (cb : Callback) (s : process),
    sha256_provider ssl ->
    run ssl (Submit d cb :: [Work 0; Work 0; Work 0]) start = Some s ->
    invoked s = [(0%nat, sha256_hex d)].

(** Two calls of [generateHash] on the same input return the same string,
    whatever OpenSSL does at each of them ([ssl], [ssl']). *)
Definition same_input_same_output : Prop :=
  forall (ssl ssl' : OpenSSL) (lg lg' : logger) (d : string),
    sha256_provider ssl -> sha256_provider ssl' ->
    snd <$> generateHash ssl (Some lg) d
    = snd <$> generateHash ssl' (Some lg') d.

(** * Properties *)

(** ** Hashing *)

Lemma be_bytes_length n x : List.length (SHA256.be_bytes n x) = n.
Proof.
  unfold SHA256.be_bytes.
  now rewrite length_map, length_rev, length_seq.
Qed.

Lemma digest_length d : List.length (SHA256.digest d) = 32%nat.
Proof.
  unfold SHA256.digest, SHA256.digest_bytes, SHA256.word_bytes.
  rewrite length_map, !length_app, !be_bytes_length. reflexivity.
Qed.

Lemma hex_byte_length c : List.length (hex_byte c) = 2%nat.
Proof.
  destruct c as [[] [] [] [] [] [] [] []]; reflexivity.
Qed.

Lemma hex_byte_lower c : forallb lower_hex (hex_byte c) = true.
Proof.
  destruct c as [[] [] [] [] [] [] [] []]; reflexivity.
Qed.

Lemma hex_stream_length h :
  List.length (hex_stream h) = (2 * List.length h)%nat.
Proof.
  induction h as [|c h IH]; simpl; [reflexivity|].
  rewrite length_app, hex_byte_length, IH. lia.
Qed.

Lemma hex_stream_lower h : forallb lower_hex (hex_stream h) = true.
Proof.
  induction h as [|c h IH]; simpl; [reflexivity|].
  rewrite forallb_app, hex_byte_lower, IH. reflexivity.
Qed.

Lemma unhex_hex_byte c rest : unhex (hex_byte c ++ rest) = c :: unhex rest.
Proof.
  destruct c as [[] [] [] [] [] [] [] []]; reflexivity.
Qed.

Lemma unhex_hex_stream h : unhex (hex_stream h) = h.
Proof.
  induction h as [|c h IH]; simpl; [reflexivity|].
  now rewrite unhex_hex_byte, IH.
Qed.

Lemma string_length_of_list l :
  String.length (string_of_list_ascii l) = List.length l.
Proof.
  induction l as [|c l IH]; simpl; [reflexivity|]. now rewrite IH.
Qed.

Lemma sha256_hex_length d : String.length (sha256_hex d) = 64%nat.
Proof.
  unfold sha256_hex.
  rewrite string_length_of_list, hex_stream_length, digest_length.
  reflexivity.
Qed.

Lemma sha256_hex_lower d :
  forallb lower_hex (list_ascii_of_string (sha256_hex d)) = true.
Proof.
  unfold sha256_hex.
  rewrite list_ascii_of_string_of_list_ascii. apply hex_stream_lower.
Qed.

Lemma sha256_hex_decodes d :
  unhex (list_ascii_of_string (sha256_hex d)) = SHA256.digest d.
Proof.
  unfold sha256_hex.
  rewrite list_ascii_of_string_of_list_ascii. apply unhex_hex_stream.
Qed.
Lemma libcrypto_no_memory_provider : sha256_provider libcrypto_no_memory.
Proof.
  intros d c0 c1 c2 md H0. discriminate H0.
Qed.

Lemma libcrypto_sha256_provider : sha256_provider libcrypto.
Proof.
  intros d c0 c1 c2 md H0 H1 H2 H3. simpl in *.
  injection H0 as <-. injection H1 as <-. injection H2 as <-.
  injection H3 as <-. reflexivity.
Qed.

(** [generateHash] follows the outcome of the OpenSSL calls: the success
    line and the formatted bytes that [EVP_DigestFinal_ex] wrote when the
    four calls succeed, the message of the failed call and the empty
    string otherwise. *)
Lemma generateHash_ok ssl lg d md :
  evp_digest_ok ssl d md ->
  generateHash ssl (Some lg) d
  = Some (log_to lg (Info, "Hash generated successfully"),
          string_of_list_ascii (hex_stream md)).
Proof.
  intros (c0 & c1 & c2 & H0 & H1 & H2 & H3).
  unfold generateHash. rewrite H0, H1. cbn. rewrite H2. cbn.
  rewrite H3. reflexivity.
Qed.

Lemma generateHash_failure ssl lg d msg :
  evp_failure ssl d msg ->
  generateHash ssl (Some lg) d = Some (log_to lg (Error, msg), "").
Proof.
  intros H. unfold generateHash.
  destruct H as [H0|c0 r c1 H0 H1 Hr|c0 c1 r c2 H0 H1 H2 Hr
                 |c0 c1 c2 r md H0 H1 H2 H3 Hr];
    apply Z.eqb_neq in Hr || idtac.
  - rewrite H0. reflexivity.
  - rewrite H0, H1, Hr. reflexivity.
  - rewrite H0, H1. cbn. rewrite H2, Hr. reflexivity.
  - rewrite H0, H1. cbn. rewrite H2. cbn. rewrite H3, Hr. reflexivity.
Qed.

Lemma evp_outcome ssl d :
  (exists md, evp_digest_ok ssl d md) \/ (exists msg, evp_failure ssl d msg).
Proof.
  destruct (EVP_MD_CTX_new ssl) as [c0|] eqn:H0;
    [|right; eexists; now apply no_context].
  destruct (EVP_DigestInit_ex ssl c0) as [r1 c1] eqn:H1.
  destruct (Z.eq_dec r1 1) as [->|];
    [|right; eexists; eapply init_failed; eauto].
  destruct (EVP_DigestUpdate ssl c1 d) as [r2 c2] eqn:H2.
  destruct (Z.eq_dec r2 1) as [->|];
    [|right; eexists; eapply update_failed; eauto].
  destruct (EVP_DigestFinal_ex ssl c2) as [r3 md] eqn:H3.
  destruct (Z.eq_dec r3 1) as [->|];
    [|right; eexists; eapply final_failed; eauto].
  left. exists md, c0, c1, c2. auto.
Qed.

(** The two outcomes exclude each other. *)
Lemma evp_outcome_exclusive ssl d md msg :
  evp_digest_ok ssl d md -> evp_failure ssl d msg -> False.
Proof.
  intros (c0 & c1 & c2 & H0 & H1 & H2 & H3) H.
  destruct H; congruence.
Qed.

Lemma hash_of_spec ssl lg d lines r :
  generateHash ssl (Some lg) d = Some (lines, r) -> r = hash_of ssl d.
Proof.
  intros H. unfold hash_of.
  destruct (evp_outcome ssl d) as [[md Hmd]|[msg Hmsg]].
  - rewrite (generateHash_ok _ lg _ _ Hmd) in H.
    rewrite (generateHash_ok _ _ _ _ Hmd). congruence.
  - rewrite (generateHash_failure _ lg _ _ Hmsg) in H.
    rewrite (generateHash_failure _ _ _ _ Hmsg). congruence.
Qed.

Lemma hash_of_ok ssl d md :
  evp_digest_ok ssl d md ->
  hash_of ssl d = string_of_list_ascii (hex_stream md).
Proof.
  intros H. unfold hash_of. now rewrite (generateHash_ok _ _ _ _ H).
Qed.

Lemma hash_of_failure ssl d msg : evp_failure ssl d msg -> hash_of ssl d = "".
Proof.
  intros H. unfold hash_of. now rewrite (generateHash_failure _ _ _ _ H).
Qed.

Lemma evp_digest_ok_sha256 ssl d md :
  sha256_provider ssl -> evp_digest_ok ssl d md -> md = SHA256.digest d.
Proof.
  intros Hssl (c0 & c1 & c2 & H0 & H1 & H2 & H3). eapply Hssl; eauto.
Qed.

Lemma sha256_hex_not_empty d : sha256_hex d <> "".
Proof.
  intros E. pose proof (sha256_hex_length d) as L. rewrite E in L.
  discriminate L.
Qed.

(** C8, as the code has it: on an object that has its logger,
    [generateHash] returns the empty string exactly when one of the four
    OpenSSL calls fails, with the message of that call logged as an error,
    and otherwise, when all four succeed, the 64 lowercase hexadecimal
    characters that spell the 32 bytes of the SHA-256 digest of its input.
    Two calls on the same input return the same string when OpenSSL
    succeeds at both or fails at both. *)
Theorem generateHash_empty_or_sha256_hex (ssl : OpenSSL) (lg : logger)
    (d : string) :
  sha256_provider ssl ->
  (forall md,
      evp_digest_ok ssl d md ->
      md = SHA256.digest d
      /\ generateHash ssl (Some lg) d
         = Some (log_to lg (Info, "Hash generated successfully"),
                 sha256_hex d))
  /\ (forall msg,
        evp_failure ssl d msg ->
        generateHash ssl (Some lg) d = Some (log_to lg (Error, msg), ""))
  /\ ((exists md, evp_digest_ok ssl d md)
      \/ (exists msg, evp_failure ssl d msg))
  /\ (hash_of ssl d = "" <-> exists msg, evp_failure ssl d msg)
  /\ (hash_of ssl d = sha256_hex d <-> exists md, evp_digest_ok ssl d md)
  /\ String.length (sha256_hex d) = 64%nat
  /\ forallb lower_hex (list_ascii_of_string (sha256_hex d)) = true
  /\ unhex (list_ascii_of_string (sha256_hex d)) = SHA256.digest d
  /\ List.length (SHA256.digest d) = 32%nat
  /\ (forall (ssl' : OpenSSL) (lg' : logger),
        sha256_provider ssl' ->
        ((exists md, evp_digest_ok ssl d md)
         <-> (exists md, evp_digest_ok ssl' d md)) ->
        snd <$> generateHash ssl' (Some lg') d
        = snd <$> generateHash ssl (Some lg) d).
Proof.
  intros Hssl.
  assert (Hok : forall s l md,
             sha256_provider s -> evp_digest_ok s d md ->
             md = SHA256.digest d
             /\ generateHash s (Some l) d
                = Some (log_to l (Info, "Hash generated successfully"),
                        sha256_hex d)).
  { intros s l md Hs Hmd.
    pose proof (evp_digest_ok_sha256 _ _ _ Hs Hmd) as ->.
    split; [reflexivity|]. now rewrite (generateHash_ok _ _ _ _ Hmd). }
  split; [intros md; now apply Hok|].
  split; [intros msg; apply generateHash_failure|].
  split; [apply evp_outcome|].
  split; [|split].
  - split.
    + intros E. destruct (evp_outcome ssl d) as [[md Hmd]|]; [|assumption].
      rewrite (hash_of_ok _ _ _ Hmd) in E.
      rewrite (evp_digest_ok_sha256 _ _ _ Hssl Hmd) in E.
      now apply sha256_hex_not_empty in E.
    + intros [msg Hmsg]. eapply hash_of_failure; eauto.
  - split.
    + intros E. destruct (evp_outcome ssl d) as [|[msg Hmsg]]; [assumption|].
      rewrite (hash_of_failure _ _ _ Hmsg) in E. symmetry in E.
      now apply sha256_hex_not_empty in E.
    + intros [md Hmd]. rewrite (hash_of_ok _ _ _ Hmd).
      now rewrite (evp_digest_ok_sha256 _ _ _ Hssl Hmd).
  - split; [apply sha256_hex_length|].
    split; [apply sha256_hex_lower|].
    split; [apply sha256_hex_decodes|].
    split; [apply digest_length|].
    intros ssl' lg' Hssl' Hsame.
    destruct (evp_outcome ssl d) as [[md Hmd]|[msg Hmsg]].
    + destruct (proj1 Hsame (ex_intro _ md Hmd)) as [md' Hmd'].
      destruct (Hok ssl lg md Hssl Hmd) as [_ ->].
      destruct (Hok ssl' lg' md' Hssl' Hmd') as [_ ->]. reflexivity.
    + rewrite (generateHash_failure _ lg _ _ Hmsg).
      destruct (evp_outcome ssl' d) as [[md' Hmd']|[msg' Hmsg']].
      * destruct (proj2 Hsame (ex_intro _ md' Hmd')) as [md Hmd].
        destruct (evp_outcome_exclusive _ _ _ _ Hmd Hmsg).
      * now rewrite (generateHash_failure _ lg' _ _ Hmsg').
Qed.

Lemma generateHash_empty_or_sha256_hex_witness :
  sha256_provider libcrypto
  /\ evp_digest_ok libcrypto "abc" (SHA256.digest "abc")
  /\ generateHash libcrypto (Some {| log_level := 2 |}) "abc"
     = Some ([(Info, "Hash generated successfully")],
             "ba7816bf8f01cfea414140de5dae2223b00361a396177a9cb410ff61f20015ad").
Proof.
  assert (Hok : evp_digest_ok libcrypto "abc" (SHA256.digest "abc")).
  { exists "", "", "abc". repeat split. }
  split; [exact libcrypto_sha256_provider|]. split; [exact Hok|].
  destruct (generateHash_empty_or_sha256_hex libcrypto {| log_level := 2 |}
              "abc" libcrypto_sha256_provider) as (H & _).
  destruct (H _ Hok) as [_ ->]. vm_compute. reflexivity.
Defined.

(** C8, as stated, fails in its last clause: the same input gives the
    SHA-256 text at a call where OpenSSL works and the empty string at a
    call where it cannot allocate a digest context. *)
Lemma generateHash_same_input_two_outputs :
  (generateHash libcrypto (Some {| log_level := 2 |}) "abc"
   = Some ([(Info, "Hash generated successfully")],
           "ba7816bf8f01cfea414140de5dae2223b00361a396177a9cb410ff61f20015ad")
   /\ generateHash libcrypto_no_memory (Some {| log_level := 2 |}) "abc"
      = Some ([(Error, "Failed to create hash context")], ""))
  /\ ~ same_input_same_output.
Proof.
  split.
  - split; vm_compute; reflexivity.
  - intros H.
    specialize (H libcrypto libcrypto_no_memory
                  {| log_level := 2 |} {| log_level := 2 |} "abc"
                  libcrypto_sha256_provider libcrypto_no_memory_provider).
    vm_compute in H. discriminate H.
Qed.

(** ** Error state *)

(** C10: [hasErrors()] is true exactly when [getLastError()] is not the
    empty string; after [clearErrors()] the former is false and the latter
    empty; both queries leave the object unchanged. *)
Theorem error_queries_agree (p : Impl) :
  (fst (hasErrors p) = true <-> fst (getLastError p) <> "")
  /\ fst (hasErrors (snd (clearErrors p))) = false
  /\ fst (getLastError (snd (clearErrors p))) = ""
  /\ snd (hasErrors p) = p
  /\ snd (getLastError p) = p.
Proof.
  repeat split; try reflexivity; simpl.
  - destruct (lastError_ p); simpl; [discriminate|discriminate].
  - destruct (lastError_ p); simpl; [intros H; now elim H|reflexivity].
Qed.

(** ** decompressFile *)

(** C9: [decompressFile] returns [true] for every pair of paths and every
    file system, and leaves the file system as it was, whether or not the
    input path exists. *)
Theorem decompressFile_is_a_stub (fs : gmap string string)
    (inputPath outputPath : string) :
  decompressFile fs inputPath outputPath = (true, fs).
Proof. reflexivity. Qed.
(** ** The dispatcher: general facts about runs *)

Lemma run_app ssl evs1 evs2 s :
  run ssl (evs1 ++ evs2) s
  = match run ssl evs1 s with
    | Some s1 => run ssl evs2 s1
    | None => None
    end.
Proof.
  revert s. induction evs1 as [|e evs1 IH]; intros s; simpl; [reflexivity|].
  destruct (step ssl e s); [apply IH|reflexivity].
Qed.

(** A property kept by every step holds along every run. *)
Lemma run_invariant ssl (P : process -> Prop) :
  (forall e s s', P s -> step ssl e s = Some s' -> P s') ->
  forall evs s s', P s -> run ssl evs s = Some s' -> P s'.
Proof.
  intros Hstep evs. induction evs as [|e evs IH]; intros s s' HP Hrun.
  - simpl in Hrun. now injection Hrun as <-.
  - simpl in Hrun. destruct (step ssl e s) as [s1|] eqn:E; [|discriminate].
    eapply IH; [|exact Hrun]. eapply Hstep; eauto.
Qed.

(** Case analysis of a successful step. *)
Ltac step_inv H :=
  match type of H with
  | step _ ?e _ = Some _ =>
      destruct e; simpl in H;
      unfold processDataAsync, set_level, waitForCompletion_call,
        waitForCompletion_return, tick, worker_step, logger_call,
        terminated in H;
      repeat case_match; simplify_eq
  end.




(** The logger is never created nor lost after construction. *)
Lemma step_logger ssl e s s' :
  step ssl e s = Some s' -> is_Some (the_logger s) -> is_Some (the_logger s').
Proof.
  intros H [l Hl]. step_inv H; simpl; eauto; congruence.
Qed.

Lemma reachable_logger ssl evs s :
  run ssl evs start = Some s -> is_Some (the_logger s).
Proof.
  apply (run_invariant ssl (fun x => is_Some (the_logger x))).
  - intros e a b Ha Hs. eapply step_logger; eauto.
  - simpl. eauto.
Qed.


Lemma set_pc_same t : set_pc t (pc t) = t.
Proof. now destruct t. Qed.






(** ** The dispatcher: what reaches the callbacks *)

Lemma generateHash_null ssl d : generateHash ssl None d = None.
Proof.
  unfold generateHash.
  destruct (EVP_MD_CTX_new ssl) as [c0|]; [|reflexivity].
  destruct (EVP_DigestInit_ex ssl c0) as [r1 c1].
  destruct (negb (r1 =? 1)%Z); [reflexivity|].
  destruct (EVP_DigestUpdate ssl c1 d) as [r2 c2].
  destruct (negb (r2 =? 1)%Z); [reflexivity|].
  destruct (EVP_DigestFinal_ex ssl c2) as [r3 md].
  destruct (negb (r3 =? 1)%Z); reflexivity.
Qed.

Lemma hash_of_any_logger ssl lg d lines r :
  generateHash ssl lg d = Some (lines, r) -> r = hash_of ssl d.
Proof.
  destruct lg as [l|]; [apply hash_of_spec|].
  rewrite generateHash_null. discriminate.
Qed.

Lemma delivery_inv_start ssl lg : delivery_inv ssl (start_with lg).
Proof. intros i. reflexivity. Qed.

Lemma delivery_inv_worker_step ssl i s s' :
  delivery_inv ssl s -> worker_step ssl i s = Some s' -> delivery_inv ssl s'.
Proof.
  intros Hinv H. unfold worker_step in H.
  destruct (alive s); [|discriminate].
  destruct (threads s !! i) as [t|] eqn:Hi; [|discriminate].
  assert (Hlt : (i < List.length (threads s))%nat)
    by (eapply lookup_lt_Some; eauto).
  pose proof (Hinv i) as Hinvi. rewrite Hi in Hinvi.
  destruct (pc t) as [| |r|r|] eqn:Hpc; [| | | |discriminate].
  - destruct (logger_call _ _); injection H as <-; [|exact Hinv].
    intros k. unfold invocations. simpl.
    destruct (decide (k = i)) as [->|Hne].
    + rewrite list_lookup_insert_eq by assumption. exact Hinvi.
    + rewrite list_lookup_insert_ne by auto. exact (Hinv k).
  - destruct (generateHash _ _ _) as [[lines result]|] eqn:G;
      injection H as <-; [|exact Hinv].
    intros k. unfold invocations. simpl.
    destruct (decide (k = i)) as [->|Hne].
    + rewrite list_lookup_insert_eq by assumption. simpl.
      split; [eapply hash_of_any_logger; eauto|exact Hinvi].
    + rewrite list_lookup_insert_ne by auto. exact (Hinv k).
  - injection H as <-. destruct Hinvi as [Hr Hnone].
    intros k. unfold invocations in *. simpl.
    rewrite List.filter_app. simpl.
    destruct (decide (k = i)) as [->|Hne].
    + rewrite list_lookup_insert_eq by assumption. simpl.
      rewrite Nat.eqb_refl, Hnone. split; [assumption|reflexivity].
    + rewrite list_lookup_insert_ne by auto.
      assert (E : Nat.eqb i k = false) by (apply Nat.eqb_neq; auto).
      rewrite E, app_nil_r. exact (Hinv k).
  - destruct (callback t r); injection H as <-; [|exact Hinv].
    destruct Hinvi as [Hr Hone].
    intros k. unfold invocations in *. simpl.
    destruct (decide (k = i)) as [->|Hne].
    + rewrite list_lookup_insert_eq by assumption. simpl. now rewrite <- Hr.
    + rewrite list_lookup_insert_ne by auto. exact (Hinv k).
Qed.

Lemma delivery_inv_step ssl e s s' :
  delivery_inv ssl s -> step ssl e s = Some s' -> delivery_inv ssl s'.
Proof.
  intros Hinv H. destruct e; simpl in H;
    try (eapply delivery_inv_worker_step; eassumption);
    try (unfold processDataAsync, set_level, waitForCompletion_call,
           waitForCompletion_return, tick in H;
         repeat case_match; simplify_eq; exact Hinv).
  unfold processDataAsync in H. destruct (alive s); [|discriminate].
  injection H as <-. intros k. pose proof (Hinv k) as Hk.
  unfold invocations in *. simpl.
  destruct (decide (k < List.length (threads s))%nat) as [Hlt|Hge].
  - rewrite lookup_app_l by assumption. exact Hk.
  - rewrite lookup_ge_None_2 in Hk by lia.
    destruct (decide (k = List.length (threads s))) as [->|Hne].
    + rewrite list_lookup_middle by reflexivity. exact Hk.
    + rewrite lookup_ge_None_2; [exact Hk|].
      rewrite length_app. simpl. lia.
Qed.

Lemma reachable_delivery_inv ssl lg evs s :
  run ssl evs (start_with lg) = Some s -> delivery_inv ssl s.
Proof.
  apply (run_invariant ssl (delivery_inv ssl)).
  - intros e s0 s1. apply delivery_inv_step.
  - apply delivery_inv_start.
Qed.



Lemma In_invocations i r s :
  In (i, r) (invoked s) -> In (i, r) (invocations i s).
Proof.
  intros Hin. unfold invocations. apply List.filter_In.
  split; [assumption|]. simpl. apply Nat.eqb_refl.
Qed.

Lemma delivery_argument ssl s i t r :
  delivery_inv ssl s -> threads s !! i = Some t ->
  In (i, r) (invoked s) -> r = hash_of ssl (data t).
Proof.
  intros Hinv Hi Hin. specialize (Hinv i). rewrite Hi in Hinv.
  apply In_invocations in Hin.
  destruct (pc t).
  - rewrite Hinv in Hin. destruct Hin.
  - rewrite Hinv in Hin. destruct Hin.
  - destruct Hinv as [_ E]. rewrite E in Hin. destruct Hin.
  - destruct Hinv as [-> E]. rewrite E in Hin.
    destruct Hin as [Heq|[]]. congruence.
  - rewrite Hinv in Hin. destruct Hin as [Heq|[]]. congruence.
Qed.

Lemma delivery_unknown_task ssl s i r :
  delivery_inv ssl s -> In (i, r) (invoked s) -> is_Some (threads s !! i).
Proof.
  intros Hinv Hin. specialize (Hinv i).
  destruct (threads s !! i) as [t|]; [eauto|].
  apply In_invocations in Hin. rewrite Hinv in Hin. destruct Hin.
Qed.


(** ** The dispatcher: every worker can run to its end *)

(** A worker that is not over can take its next step, as long as the
    process lives and has its logger; it stays alive if the callback
    returns. *)
Lemma worker_step_next ssl s i t l :
  alive s = true ->
  the_logger s = Some l ->
  threads s !! i = Some t ->
  pc t <> Finished ->
  (forall r, pc t = InCallback r -> callback t r = Returned) ->
  exists s' p,
    worker_step ssl i s = Some s'
    /\ threads s' = <[i := set_pc t p]> (threads s)
    /\ alive s' = true /\ clock s' = clock s /\ sleeper s' = sleeper s
    /\ the_logger s' = Some l
    /\ S (steps_left p) = steps_left (pc t)
    /\ invoked s'
       = invoked s ++ match pc t with Hashed r => [(i, r)] | _ => [] end
    /\ (forall r, p = Hashed r -> r = hash_of ssl (data t))
    /\ (forall r, p = InCallback r -> pc t = Hashed r).
Proof.
  intros Ha Hl Hi Hpc Hcb. unfold worker_step. rewrite Ha, Hi, Hl.
  destruct (pc t) as [| |r|r|] eqn:E; [| | | |contradiction].
  - eexists _, Running. simpl. rewrite app_nil_r.
    repeat split; try reflexivity; try assumption; intros r Hr; discriminate Hr.
  - destruct (generateHash ssl (Some l) (data t)) as [[lines result]|] eqn:G.
    + eexists _, (Hashed result). simpl. rewrite app_nil_r.
      repeat split; try reflexivity; try assumption.
      * intros r [= <-]. eapply hash_of_spec; eauto.
      * intros r Hr. discriminate Hr.
    + destruct (evp_outcome ssl (data t)) as [[md Hmd]|[msg Hmsg]].
      * rewrite (generateHash_ok _ _ _ _ Hmd) in G. discriminate G.
      * rewrite (generateHash_failure _ _ _ _ Hmsg) in G. discriminate G.
  - eexists _, (InCallback r). simpl.
    repeat split; try reflexivity; try assumption.
    + intros r0 Hr. discriminate Hr.
    + intros r0 [= <-]. reflexivity.
  - rewrite (Hcb r eq_refl).
    eexists _, Finished. simpl. rewrite app_nil_r.
    repeat split; try reflexivity; try assumption; intros r0 Hr; discriminate Hr.
Qed.

(** Running one worker to its end: the other threads are not touched, and
    its callback is entered on the way unless it had been already. *)
Lemma finish_one ssl i n :
  forall s t l,
    steps_left (pc t) = n ->
    alive s = true ->
    the_logger s = Some l ->
    threads s !! i = Some t ->
    (forall r, pc t = Hashed r \/ pc t = InCallback r ->
               r = hash_of ssl (data t)) ->
    callback t (hash_of ssl (data t)) = Returned ->
    exists s',
      run ssl (repeat (Work i) n) s = Some s'
      /\ threads s' = <[i := set_pc t Finished]> (threads s)
      /\ alive s' = true /\ clock s' = clock s /\ sleeper s' = sleeper s
      /\ the_logger s' = Some l
      /\ invoked s'
         = invoked s ++ (if entered (pc t) then []
                         else [(i, hash_of ssl (data t))]).
Proof.
  induction n as [|n IH]; intros s t l Hn Ha Hl Hi Hh Hcb.
  - exists s. simpl. destruct (pc t) eqn:E; try discriminate Hn.
    simpl. rewrite app_nil_r. repeat split; try assumption.
    rewrite list_insert_id; [reflexivity|].
    rewrite Hi. f_equal. rewrite <- E. symmetry. apply set_pc_same.
  - assert (Hpc : pc t <> Finished) by (intros E; rewrite E in Hn; discriminate).
    destruct (worker_step_next ssl s i t l Ha Hl Hi Hpc)
      as (s1 & p & Hs & Ht & Ha1 & Hc1 & Hsl1 & Hl1 & Hp & Hinv1 & Hr & Hr').
    { intros r E. rewrite (Hh r (or_intror E)) in *. assumption. }
    assert (Hlt : (i < List.length (threads s))%nat)
      by (eapply lookup_lt_Some; eauto).
    destruct (IH s1 (set_pc t p) l)
      as (s' & Hrun & Ht' & Ha' & Hc' & Hsl' & Hl' & Hinv').
    + simpl. lia.
    + assumption.
    + assumption.
    + rewrite Ht. now apply list_lookup_insert_eq.
    + simpl. intros r [E|E]; [now apply Hr|].
      apply Hh. left. now apply Hr'.
    + assumption.
    + exists s'. simpl. rewrite Hs.
      repeat split; try congruence.
      * rewrite Ht', Ht, list_insert_insert_eq. reflexivity.
      * rewrite Hinv', Hinv1. simpl. rewrite <- app_assoc. f_equal.
        destruct (pc t) as [| |r|r|] eqn:E; simpl in *;
          destruct p; simpl in *; try lia; try reflexivity.
        specialize (Hr' _ eq_refl). injection Hr' as <-.
        now rewrite (Hh r (or_introl eq_refl)).
Qed.


(** What the invariant says of the hash a worker holds. *)
Lemma delivery_inv_hash ssl s i t r :
  delivery_inv ssl s -> threads s !! i = Some t ->
  pc t = Hashed r \/ pc t = InCallback r -> r = hash_of ssl (data t).
Proof.
  intros Hinv Hi Hpc. specialize (Hinv i). rewrite Hi in Hinv.
  destruct Hpc as [E|E]; rewrite E in Hinv; tauto.
Qed.







(** ** What the callback receives *)

(** C7, as the code has it: every callback invocation carries the return
    value of [generateHash] on the task's payload, and that value follows
    the outcome of the four OpenSSL calls on the payload: the SHA-256
    text, 64 characters, when they all succeed, and the empty string when
    one of them fails.  One of the two is always the case. *)
Theorem callback_receives_generateHash_result (ssl : OpenSSL)
    (lg : option logger) (evs : list event) (s : process) (i : nat)
    (r : string) :
  sha256_provider ssl ->
  run ssl evs (start_with lg) = Some s ->
  In (i, r) (invoked s) ->
  exists t,
    threads s !! i = Some t
    /\ (forall l, snd <$> generateHash ssl (Some l) (data t) = Some r)
    /\ ((exists md, evp_digest_ok ssl (data t) md) ->
        r = sha256_hex (data t) /\ String.length r = 64%nat)
    /\ ((exists msg, evp_failure ssl (data t) msg) -> r = "")
    /\ ((exists md, evp_digest_ok ssl (data t) md)
        \/ (exists msg, evp_failure ssl (data t) msg)).
Proof.
  intros Hssl Hrun Hin.
  pose proof (reachable_delivery_inv _ _ _ _ Hrun) as Hinv.
  destruct (delivery_unknown_task _ _ _ _ Hinv Hin) as [t Ht].
  exists t. split; [assumption|].
  pose proof (delivery_argument _ _ _ _ _ Hinv Ht Hin) as ->.
  split; [|split; [|split]].
  - intros l. destruct (evp_outcome ssl (data t)) as [[md Hmd]|[msg Hmsg]].
    + rewrite (generateHash_ok _ _ _ _ Hmd), (hash_of_ok _ _ _ Hmd).
      reflexivity.
    + rewrite (generateHash_failure _ _ _ _ Hmsg), (hash_of_failure _ _ _ Hmsg).
      reflexivity.
  - intros [md Hmd]. rewrite (hash_of_ok _ _ _ Hmd).
    rewrite (evp_digest_ok_sha256 _ _ _ Hssl Hmd).
    split; [reflexivity|apply sha256_hex_length].
  - intros [msg Hmsg]. eapply hash_of_failure; eauto.
  - apply evp_outcome.
Qed.

Lemma callback_receives_generateHash_result_witness :
  sha256_provider libcrypto
  /\ run libcrypto (partial_run ++ [Work 0]) start
     = Some (default start (run libcrypto (partial_run ++ [Work 0]) start))
  /\ exists t,
       threads (default start (run libcrypto (partial_run ++ [Work 0]) start))
         !! 0%nat = Some t
       /\ data t = "abc"
       /\ snd <$> generateHash libcrypto (Some {| log_level := 2 |}) (data t)
          = Some "ba7816bf8f01cfea414140de5dae2223b00361a396177a9cb410ff61f20015ad".
Proof.
  split; [exact libcrypto_sha256_provider|].
  split; [vm_compute; reflexivity|].
  destruct (callback_receives_generateHash_result libcrypto
              (Some {| log_level := 2 |})
              (partial_run ++ [Work 0])
              (default start (run libcrypto (partial_run ++ [Work 0]) start))
              0%nat
              "ba7816bf8f01cfea414140de5dae2223b00361a396177a9cb410ff61f20015ad"
              libcrypto_sha256_provider)
    as (t & Ht & Hr & _).
  - vm_compute. reflexivity.
  - vm_compute. left. reflexivity.
  - exists t. split; [exact Ht|].
    split; [|apply Hr].
    vm_compute in Ht. injection Ht as <-. reflexivity.
Defined.

(** C7, as stated, fails: when OpenSSL cannot allocate a digest context
    the callback is given the empty string, not a SHA-256 text. *)
Lemma hash_delivery_can_fail :
  (exists s,
      run libcrypto_no_memory
          (Submit "abc" ok_callback :: [Work 0; Work 0; Work 0]) start
      = Some s
      /\ invoked s = [(0%nat, "")]
      /\ logged s = [(Info, "Processing data asynchronously");
                     (Error, "Failed to create hash context")])
  /\ ~ hash_always_delivered.
Proof.
  split.
  - eexists. split; [vm_compute; reflexivity|]. split; reflexivity.
  - intros H.
    specialize (H libcrypto_no_memory "abc" ok_callback _
                  libcrypto_no_memory_provider eq_refl).
    vm_compute in H. discriminate H.
Qed.

(** ** A work function that fails *)




(** ** waitForCompletion is a 100 ms sleep *)



Lemma outstanding_nonneg s : (0 <= outstanding s)%Z.
Proof.
  unfold outstanding.
  pose proof (filter_length_le is_finished (threads s)). lia.
Qed.

(** C2, on the code: a task is submitted, [waitForCompletion] is called
    and 100 ms pass before the worker has been scheduled.  The wait can
    then return although one task is outstanding: what releases it is the
    clock, not the number of outstanding tasks. *)
Theorem wait_ignores_outstanding_tasks :
  (run libcrypto slow_run start = Some slow_state
   /\ clock slow_state = 100%nat
   /\ outstanding slow_state = 1%Z
   /\ is_Some (waitForCompletion_return slow_state))
  /\ ~ wait_is_counter_driven libcrypto.
Proof.
  split.
  - split; [vm_compute; reflexivity|]. split; [reflexivity|].
    split; [reflexivity|]. vm_compute. eauto.
  - intros H.
    destruct (H slow_run slow_state) as [Hcount _].
    + vm_compute. reflexivity.
    + vm_compute. eauto.
    + assert (E : outstanding slow_state = 0%Z)
        by (apply Hcount; vm_compute; eauto).
      vm_compute in E. discriminate E.
Qed.




(** ** waitForCompletion does not wait for the workers *)

(** C1, on the code: a task is submitted, [waitForCompletion] is called,
    100 ms pass without the worker having been scheduled to its end:
    [waitForCompletion] returns, the task's thread has not started and its
    callback has not been invoked.  So the wait does not cover the tasks
    submitted before it. *)
Theorem waitForCompletion_returns_before_completion :
  (exists s,
      run libcrypto (slow_run ++ [WaitReturn]) start = Some s
      /\ sleeper s = None
      /\ clock s = 100%nat
      /\ map pc (threads s) = [Spawned]
      /\ invoked s = [])
  /\ ~ wait_covers_submitted libcrypto.
Proof.
  split.
  - eexists. split; [vm_compute; reflexivity|]. repeat split.
  - intros H.
    pose (lg := Some {| log_level := 2 |}).
    pose (t0 := {| data := "abc"; callback := ok_callback; pc := Spawned |}).
    pose (s0 := {| clock := 0; threads := [t0]; sleeper := None;
                   invoked := []; logged := []; the_logger := lg;
                   alive := true |}).
    pose (s1 := {| clock := 0; threads := [t0]; sleeper := Some 100%nat;
                   invoked := []; logged := []; the_logger := lg;
                   alive := true |}).
    pose (s3 := {| clock := 100; threads := [t0]; sleeper := None;
                   invoked := []; logged := []; the_logger := lg;
                   alive := true |}).
    assert (Hpre : run libcrypto [Submit "abc" ok_callback] start = Some s0)
      by reflexivity.
    assert (Hcall : waitForCompletion_call s0 = Some s1) by reflexivity.
    assert (Hmid : run libcrypto (repeat Tick 100) s1 = Some slow_state)
      by (vm_compute; reflexivity).
    assert (Hret : waitForCompletion_return slow_state = Some s3)
      by (vm_compute; reflexivity).
    assert (Hl : threads s0 !! 0%nat = Some t0) by reflexivity.
    pose proof (H _ _ _ _ _ _ Hpre Hcall Hmid Hret _ _ Hl) as Hfin.
    vm_compute in Hfin. discriminate Hfin.
Qed.

(** C5, on the code: the number of tasks submitted and not yet completed
    is never negative, but [waitForCompletion] returns while it is 1. *)
Theorem waitForCompletion_returns_with_outstanding_task :
  (forall s : process, (0 <= outstanding s)%Z)
  /\ exists s s',
       run libcrypto slow_run start = Some s
       /\ waitForCompletion_return s = Some s'
       /\ outstanding s = 1%Z
       /\ outstanding s' = 1%Z.
Proof.
  split; [exact outstanding_nonneg|].
  eexists _, _. split; [vm_compute; reflexivity|].
  split; [vm_compute; reflexivity|]. split; reflexivity.
Qed.

(** * Further properties of the code *)

(** ** generateHash: the formatting loop on any digest *)

(** Whatever bytes [EVP_DigestFinal_ex] writes, and however many, when the
    four OpenSSL calls succeed [generateHash], on an object that has its
    logger, returns two lowercase hexadecimal digits per byte, high digit
    first and leading zero kept, from which the bytes can be read back;
    the success line is written when the level of the logger is at most
    info and dropped otherwise. *)
Theorem generateHash_formats_every_byte (ssl : OpenSSL) (lg : logger)
    (d : string) (md : list ascii) :
  evp_digest_ok ssl d md ->
  exists lines text,
    generateHash ssl (Some lg) d = Some (lines, text)
    /\ String.length text = (2 * List.length md)%nat
    /\ forallb lower_hex (list_ascii_of_string text) = true
    /\ unhex (list_ascii_of_string text) = md
    /\ lines = if (log_level lg <=? 2)%Z
               then [(Info, "Hash generated successfully")]
               else [].
Proof.
  intros H. rewrite (generateHash_ok _ _ _ _ H).
  eexists _, _. split; [reflexivity|].
  rewrite string_length_of_list, hex_stream_length,
    list_ascii_of_string_of_list_ascii, hex_stream_lower, unhex_hex_stream.
  repeat split.
Qed.

Lemma generateHash_formats_every_byte_witness :
  evp_digest_ok libcrypto "abc" (SHA256.digest "abc")
  /\ exists text,
       generateHash libcrypto (Some {| log_level := 3 |}) "abc"
       = Some ([], text)
       /\ String.length text = 64%nat
       /\ unhex (list_ascii_of_string text) = SHA256.digest "abc".
Proof.
  assert (Hok : evp_digest_ok libcrypto "abc" (SHA256.digest "abc")).
  { exists "", "", "abc". repeat split. }
  split; [exact Hok|].
  destruct (generateHash_formats_every_byte libcrypto {| log_level := 3 |}
              "abc" _ Hok)
    as (lines & text & Hg & Hlen & _ & Hdec & Hlines).
  exists text. simpl in Hlines. rewrite Hlines in Hg.
  split; [exact Hg|]. split; [|exact Hdec].
  rewrite Hlen, digest_length. reflexivity.
Defined.

(** ** The dispatcher: callbacks run in no fixed order *)

Lemma finish_two_in_order ssl evs s i j ti tj :
  run ssl evs start = Some s ->
  alive s = true ->
  i <> j ->
  threads s !! i = Some ti ->
  threads s !! j = Some tj ->
  entered (pc ti) = false ->
  entered (pc tj) = false ->
  callback ti (hash_of ssl (data ti)) = Returned ->
  callback tj (hash_of ssl (data tj)) = Returned ->
  exists s',
    run ssl (repeat (Work i) (steps_left (pc ti))
             ++ repeat (Work j) (steps_left (pc tj))) s = Some s'
    /\ invoked s'
       = invoked s ++ [(i, hash_of ssl (data ti)); (j, hash_of ssl (data tj))].
Proof.
  intros Hrun Ha Hij Hi Hj Hni Hnj Hci Hcj.
  pose proof (reachable_delivery_inv _ _ _ _ Hrun) as Hinv.
  destruct (reachable_logger _ _ _ Hrun) as [l Hl].
  destruct (finish_one ssl i _ s ti l eq_refl Ha Hl Hi
              (fun r => delivery_inv_hash _ _ _ _ r Hinv Hi) Hci)
    as (s1 & Hr1 & Ht1 & Ha1 & _ & _ & Hl1 & Hinv1).
  assert (Hj1 : threads s1 !! j = Some tj)
    by (rewrite Ht1, list_lookup_insert_ne; auto).
  destruct (finish_one ssl j _ s1 tj l eq_refl Ha1 Hl1 Hj1
              (fun r => delivery_inv_hash _ _ _ _ r Hinv Hj) Hcj)
    as (s2 & Hr2 & _ & _ & _ & _ & _ & Hinv2).
  exists s2. rewrite run_app, Hr1. split; [exact Hr2|].
  rewrite Hinv2, Hinv1, Hni, Hnj. now rewrite <- app_assoc.
Qed.

(** Callbacks are invoked in no fixed order: for any two tasks whose
    workers have not entered their callbacks, in a live process where both
    callbacks return, there is a schedule that invokes the first before
    the second and one that invokes the second before the first, whatever
    the order of submission. *)
Theorem callbacks_run_in_either_order (ssl : OpenSSL) (evs : list event)
    (s : process) (i j : nat) (ti tj : task) :
  run ssl evs start = Some s ->
  alive s = true ->
  i <> j ->
  threads s !! i = Some ti ->
  threads s !! j = Some tj ->
  pc ti <> Finished ->
  pc tj <> Finished ->
  (forall r, pc ti <> InCallback r) ->
  (forall r, pc tj <> InCallback r) ->
  callback ti (hash_of ssl (data ti)) = Returned ->
  callback tj (hash_of ssl (data tj)) = Returned ->
  (exists s1,
      run ssl (repeat (Work i) (steps_left (pc ti))
               ++ repeat (Work j) (steps_left (pc tj))) s = Some s1
      /\ invoked s1
         = invoked s ++ [(i, hash_of ssl (data ti));
                         (j, hash_of ssl (data tj))])
  /\ (exists s2,
        run ssl (repeat (Work j) (steps_left (pc tj))
                 ++ repeat (Work i) (steps_left (pc ti))) s = Some s2
        /\ invoked s2
           = invoked s ++ [(j, hash_of ssl (data tj));
                           (i, hash_of ssl (data ti))]).
Proof.
  intros Hrun Ha Hij Hi Hj Hni Hnj Hci' Hcj' Hci Hcj.
  assert (Hei : entered (pc ti) = false).
  { destruct (pc ti) as [| |r|r|]; try reflexivity;
      [now elim (Hci' r)|now elim Hni]. }
  assert (Hej : entered (pc tj) = false).
  { destruct (pc tj) as [| |r|r|]; try reflexivity;
      [now elim (Hcj' r)|now elim Hnj]. }
  split.
  - eapply finish_two_in_order; eauto.
  - eapply finish_two_in_order; eauto.
Qed.

Lemma callbacks_run_in_either_order_witness :
  run libcrypto partial_run start = Some partial_state
  /\ exists s2,
       run libcrypto [Work 1; Work 1; Work 1; Work 1; Work 0; Work 0]
           partial_state = Some s2
       /\ map fst (invoked s2) = [1%nat; 0%nat].
Proof.
  split; [vm_compute; reflexivity|].
  destruct (callbacks_run_in_either_order libcrypto partial_run partial_state
              0%nat 1%nat
              {| data := "abc"; callback := ok_callback;
                 pc := Hashed (sha256_hex "abc") |}
              {| data := "Async test data"; callback := ok_callback;
                 pc := Spawned |})
    as [_ (s2 & Hrun & Hinv)];
    try (vm_compute; reflexivity); try discriminate.
  exists s2. split; [exact Hrun|]. rewrite Hinv. reflexivity.
Defined.

(** ** encryptData *)

Lemma string_length_list_ascii (d : string) :
  List.length (list_ascii_of_string d) = String.length d.
Proof.
  induction d as [|c d IH]; simpl; [reflexivity|]. now rewrite IH.
Qed.

(** The conversion keeps a size below 2^31 and never gives more than the
    size. *)
Lemma to_int_small n : (0 <= n < 2 ^ 31)%Z -> to_int n = n.
Proof.
  unfold to_int. change (2 ^ 31)%Z with 2147483648%Z.
  change (2 ^ 32)%Z with 4294967296%Z. intros H.
  rewrite Z.mod_small; lia.
Qed.

Lemma to_int_le n : (0 <= n)%Z -> (to_int n <= n)%Z.
Proof.
  unfold to_int. change (2 ^ 31)%Z with 2147483648%Z.
  change (2 ^ 32)%Z with 4294967296%Z. intros H.
  pose proof (Z.mod_le (n + 2147483648) 4294967296). lia.
Qed.

Lemma block_padder_cbc_padding : cbc_padding block_padder.
Proof.
  intros d key inl c0 r1 c1 r2 c2 out1 r3 out2 Hinl H0 H1 H2 H3.
  change (EVP_EncryptInit_ex block_padder c0 key) with (1%Z, @nil ascii) in H1.
  change (EVP_EncryptUpdate block_padder c1 d inl)
    with (let bytes := firstn (Z.to_nat inl) (list_ascii_of_string d) in
          let whole := (16 * (List.length bytes / 16))%nat in
          (1%Z, skipn whole bytes, firstn whole bytes)) in H2.
  change (EVP_EncryptFinal_ex block_padder c2)
    with (1%Z, c2 ++ repeat (ascii_of_nat (16 - List.length c2))
                            (16 - List.length c2)) in H3.
  cbv zeta in H2.
  apply pair_equal_spec in H1 as [<- <-].
  apply pair_equal_spec in H2 as [H2 <-].
  apply pair_equal_spec in H2 as [<- <-].
  apply pair_equal_spec in H3 as [<- <-].
  pose proof (string_length_list_ascii d) as L.
  assert (Hn : List.length (firstn (Z.to_nat inl) (list_ascii_of_string d))
               = Z.to_nat inl).
  { rewrite length_firstn, L. lia. }
  rewrite length_app, repeat_length, length_skipn, length_firstn, !Hn.
  unfold AES_BLOCK.
  assert (Hd : Z.of_nat (Z.to_nat inl / 16) = (inl / 16)%Z).
  { rewrite Nat2Z.inj_div, Z2Nat.id by lia. reflexivity. }
  pose proof (Nat.Div0.mul_div_le (Z.to_nat inl) 16) as Hle.
  pose proof (Nat.Div0.div_mod (Z.to_nat inl) 16) as Hdm.
  pose proof (Nat.mod_upper_bound (Z.to_nat inl) 16) as Hub.
  generalize dependent (Z.to_nat inl / 16)%nat.
  generalize dependent (Z.to_nat inl mod 16)%nat.
  intros. lia.
Qed.

(** With a cipher that pads as CBC does, a key of at least 31 characters
    and a plaintext whose size, converted to [int], is not negative (any
    plaintext under 2 GiB), [encryptData] on an object that has its logger
    never writes past its output vector, and its result tells failure from
    success: it is the
    empty string with an error logged, or a text of as many whole 16-byte
    blocks as the converted size has plus one, hence not empty.  For a
    plaintext under 2 GiB the conversion changes nothing: the text is
    longer than the plaintext and so differs from it. *)
Theorem encryptData_result_shape (c : Cipher) (lg : logger)
    (data key : string) :
  cbc_padding c ->
  (31 <= String.length key)%nat ->
  (0 <= to_int (Z.of_nat (String.length data)))%Z ->
  exists lines out,
    encryptData c (Some lg) data key = Some (lines, out)
    /\ ((out = "" /\ exists msg, lines = log_to lg (Error, msg))
        \/ (lines = log_to lg (Info, "Data encrypted successfully")
            /\ Z.of_nat (String.length out)
               = (16 * (to_int (Z.of_nat (String.length data)) / 16 + 1))%Z
            /\ out <> ""
            /\ ((Z.of_nat (String.length data) < 2 ^ 31)%Z ->
                (String.length data < String.length out)%nat
                /\ out <> data))).
Proof.
  intros Hc Hkey Hinl. unfold encryptData, logger_call.
  destruct (EVP_CIPHER_CTX_new c) as [c0|] eqn:Hnew; [|eauto 10].
  unfold AES_256_KEY_LENGTH.
  destruct (Nat.ltb_spec (String.length key + 1) 32); [lia|].
  destruct (EVP_EncryptInit_ex c c0 key) as [r1 c1] eqn:Hinit.
  destruct (Z.eqb_spec r1 1) as [->|]; simpl; [|eauto 10].
  pose proof (to_int_le (Z.of_nat (String.length data)) (Nat2Z.is_nonneg _))
    as Hle.
  remember (to_int (Z.of_nat (String.length data))) as inl eqn:Einl.
  destruct (EVP_EncryptUpdate c c1 data inl) as [[r2 c2] out1] eqn:Hupd.
  destruct (EVP_EncryptFinal_ex c c2) as [r3 out2] eqn:Hfin.
  destruct (Hc data key inl c0 _ c1 r2 c2 out1 r3 out2
              (conj Hinl Hle) Hnew Hinit Hupd Hfin) as [Hbound Hlen].
  unfold EVP_MAX_BLOCK_LENGTH, AES_BLOCK in *.
  destruct (Nat.ltb_spec (String.length data + 32) (List.length out1));
    [lia|].
  destruct (Z.eqb_spec r2 1) as [->|]; simpl; [|eauto 10].
  destruct (Hlen eq_refl) as [L1 L2].
  pose proof (Z.mul_div_le inl 16 eq_refl) as Hmul.
  destruct (Nat.ltb_spec (String.length data + 32)
              (List.length out1 + List.length out2)); [lia|].
  eexists _, _. split; [reflexivity|]. right.
  assert (Hl : Z.of_nat (String.length (string_of_list_ascii (out1 ++ out2)))
               = (16 * (inl / 16 + 1))%Z).
  { rewrite string_length_of_list, length_app. lia. }
  split; [reflexivity|]. split; [exact Hl|]. split.
  - intros E. rewrite E in Hl. simpl in Hl. lia.
  - intros Hsmall.
    rewrite to_int_small in Einl by lia. subst inl.
    pose proof (Z.mod_pos_bound (Z.of_nat (String.length data)) 16 eq_refl).
    pose proof (Z.div_mod (Z.of_nat (String.length data)) 16).
    assert (Hlt : (String.length data
                   < String.length (string_of_list_ascii (out1 ++ out2)))%nat)
      by lia.
    split; [exact Hlt|].
    intros E. rewrite E in Hlt. lia.
Qed.

Lemma encryptData_result_shape_witness :
  cbc_padding block_padder
  /\ (31 <= String.length "mysecretkey1234567890123456789012")%nat
  /\ (0 <= to_int (Z.of_nat (String.length "Secret message")))%Z
  /\ exists out,
       encryptData block_padder (Some {| log_level := 2 |}) "Secret message"
                   "mysecretkey1234567890123456789012"
       = Some ([(Info, "Data encrypted successfully")], out)
       /\ String.length out = 16%nat.
Proof.
  assert (Hinl : (0 <= to_int (Z.of_nat (String.length "Secret message")))%Z)
    by (vm_compute; discriminate).
  assert (Hkey : (31 <= String.length "mysecretkey1234567890123456789012")%nat)
    by (simpl; lia).
  split; [exact block_padder_cbc_padding|]. split; [exact Hkey|].
  split; [exact Hinl|].
  destruct (encryptData_result_shape block_padder {| log_level := 2 |}
              "Secret message" "mysecretkey1234567890123456789012"
              block_padder_cbc_padding Hkey Hinl)
    as (lines & out & He & [[_ [msg Hl]]|(Hl & Hlen & _)]).
  - rewrite Hl in He. vm_compute in He. discriminate He.
  - exists out. rewrite Hl in He. split; [exact He|].
    assert (E : (16 * (to_int (Z.of_nat (String.length "Secret message"))
                       / 16 + 1))%Z = 16%Z) by (vm_compute; reflexivity).
    rewrite E in Hlen. lia.
Defined.

(** ** compressFile *)

(** Compressing a file onto itself loses it: the output is opened, and
    so emptied, before anything is read, and the result is what
    compressing an empty file gives, whatever the file held. *)
Theorem compressFile_onto_itself (zl : Zlib) (writable : string -> bool)
    (fuel : nat) (fs : gmap string string) (path content : string) :
  fs !! path = Some content ->
  writable path = true ->
  compressFile zl writable fuel fs path path
  = compressFile zl writable fuel (<[path := ""]> fs) path path.
Proof.
  intros Hin Hw. unfold compressFile.
  rewrite Hin, Hw, !lookup_insert_eq, insert_insert_eq. reflexivity.
Qed.

Lemma compressFile_onto_itself_witness :
  ({["notes.txt" := "important notes"]} : gmap string string) !! "notes.txt"
  = Some "important notes"
  /\ compressFile store_only (fun _ => true) 2
       {["notes.txt" := "important notes"]} "notes.txt" "notes.txt"
     = Some (true, {["notes.txt" := ""]},
             [(Info, "Successfully compressed file: notes.txt -> notes.txt")]).
Proof.
  assert (Hin : ({["notes.txt" := "important notes"]} : gmap string string)
                  !! "notes.txt" = Some "important notes") by reflexivity.
  split; [exact Hin|].
  rewrite (compressFile_onto_itself store_only (fun _ => true) 2
             {["notes.txt" := "important notes"]} "notes.txt"
             "important notes" Hin eq_refl).
  reflexivity.
Defined.

(** ** Construction and the logging methods *)

(** After construction the error state tells one thing only: whether
    creating the logger threw.  If it did, the message is in
    [getLastError()], the object has no logger and nothing was logged.
    If it did not, [hasErrors()] is false, also when FreeType failed to
    initialise, [initializeComponents] returned [false] and an error line
    was written.  The counters start at zero either way. *)
Theorem construction_error_state (env : Startup) :
  match stdout_color_mt env "data_processor" with
  | inl what =>
      fst (getLastError (fields (fst (Impl_new env)))) = what
      /\ logger_ (fst (Impl_new env)) = None
      /\ snd (Impl_new env) = []
      /\ fst (fst (initializeComponents env unset)) = false
  | inr _ =>
      fst (hasErrors (fields (fst (Impl_new env)))) = false
      /\ logger_ (fst (Impl_new env)) = Some {| log_level := 2 |}
      /\ fst (fst (initializeComponents env unset))
         = (fst (FT_Init_FreeType env) =? 0)%Z
      /\ snd (Impl_new env)
         = if (fst (FT_Init_FreeType env) =? 0)%Z
           then [(Info, "All components initialized successfully")]
           else [(Error, "Failed to initialize FreeType")]
  end
  /\ processedItems_ (fields (fst (Impl_new env))) = 0%Z
  /\ errorCount_ (fields (fst (Impl_new env))) = 0%Z.
Proof.
  unfold Impl_new, initializeComponents.
  destruct (stdout_color_mt env "data_processor") as [what|lg] eqn:E.
  - repeat split.
  - destruct (FT_Init_FreeType env) as [err lib] eqn:F. cbn [fst].
    destruct (Z.eqb_spec err 0) as [->|Hne]; repeat split.
Qed.

(** [logError] writes through [logOperation], that is at level info: on
    an object that has a logger, after [setLogLevel(lvl)] the error line
    comes out when [lvl] is at most 2 (info) and is dropped when [lvl] is
    warn or above; on an object without a logger both methods do
    nothing. *)
Theorem logError_is_written_at_info_level (o : Object) (lvl : Z)
    (error : string) :
  logError error (setLogLevel lvl o)
  = match logger_ o with
    | Some _ =>
        if (lvl <=? 2)%Z
        then [(Info, ("Operation: ERROR - Details: " ++ error)%string)]
        else []
    | None => []
    end
  /\ match logger_ o with
     | Some _ => fields (setLogLevel lvl o) = fields o
     | None => setLogLevel lvl o = o
     end.
Proof.
  unfold logError, logOperation, setLogLevel, log_to, should_log.
  destruct (logger_ o) as [lg|] eqn:E; simpl; [|rewrite E; auto].
  destruct (lvl <=? 2)%Z; auto.
Qed.
